(** * The voting server of [server.js]: sessions, votes and tallies

    A shallow embedding of the session state machine of [server.js]
    (the [currentSession] slot, [newTally], [endSession], the handlers of
    [POST /api/start], [GET /api/status], [GET /api/results] and of the
    [voting/vote] subscription), with the theorems that relate it to the
    written specification.

    Conventions.
    - The single-threaded event loop runs one handler at a time, so a
      handler is a function from the server state to the new state, the
      messages it published and its answer.
    - JavaScript numbers are binary64 floats ([float]); vote counts are
      [nat], the clock reading of [Date.now()] is an integer number of
      milliseconds ([Z]).
    - [publish] serialises its argument at once, so a published message
      carries the value the tally had at that moment. *)

From Stdlib Require Import ZArith.
From Stdlib Require Import Floats.PrimFloat Uint63.
From stdpp Require Import gmap strings pretty list fin_maps.

Local Open Scope string_scope.
#[local] Set Warnings "-register-all,-clear-no-such-hyp,-unused-intro-pattern".

(** ** Values that arrive in a JSON body or payload *)

Inductive JSValue :=
  | JUndefined
  | JNull
  | JBool (b : bool)
  | JNum (x : float)
  | JStr (s : string)
  | JArr (items : list JSValue)
  | JObj (props : list (string * JSValue)).

(** [ToBoolean]: what [v || w] and [!v] test. *)
Definition truthy (v : JSValue) : bool :=
  match v with
  | JUndefined | JNull => false
  | JBool b => b
  | JNum x => negb (PrimFloat.eqb x PrimFloat.zero || PrimFloat.is_nan x)
  | JStr s => negb (bool_decide (s = ""))
  | JArr _ | JObj _ => true
  end.

Fixpoint assoc (k : string) (props : list (string * JSValue)) : JSValue :=
  match props with
  | [] => JUndefined
  | (k', v) :: rest => if bool_decide (k' = k) then v else assoc k rest
  end.

(** [v.k] for the three names the vote handler destructures. None of them
    is a member of a prototype, so only an object's own properties can
    answer. *)
Definition get (v : JSValue) (k : string) : JSValue :=
  match v with
  | JObj props => assoc k props
  | _ => JUndefined
  end.

(** ** The tally object

    [newTally] builds a plain object [{}] and the vote handler reads and
    writes it with [t[k]].  A plain object inherits from
    [Object.prototype]: reading a name that is not an own property finds
    the inherited member, and writing the name [__proto__] runs the
    inherited setter, which ignores every value that is neither an object
    nor [null]. *)

Inductive TallyValue :=
  | Count (n : nat)
  | Text.   (* a string, the result of [+] on something that is not a number *)

Definition object_prototype_members : list string :=
  [ "constructor"; "__defineGetter__"; "__defineSetter__"; "hasOwnProperty";
    "__lookupGetter__"; "__lookupSetter__"; "isPrototypeOf";
    "propertyIsEnumerable"; "toString"; "valueOf"; "__proto__";
    "toLocaleString" ].

Inductive PropertyRead :=
  | Own (v : TallyValue)
  | Inherited            (* a function or object of [Object.prototype] *)
  | Absent.              (* [undefined] *)

(** [t[k]] as an expression. *)
Definition tally_get (t : gmap string TallyValue) (k : string) : PropertyRead :=
  match t !! k with
  | Some v => Own v
  | None =>
      if bool_decide (k ∈ object_prototype_members) then Inherited else Absent
  end.

(** [t[k] = v] for a number or string [v]. *)
Definition tally_set (t : gmap string TallyValue) (k : string) (v : TallyValue)
  : gmap string TallyValue :=
  match t !! k with
  | Some _ => <[k := v]> t
  | None => if bool_decide (k = "__proto__") then t else <[k := v]> t
  end.

(** [(x || 0) + 1] *)
Definition or_zero_plus_one (x : PropertyRead) : TallyValue :=
  match x with
  | Own (Count n) => Count (n + 1)
  | Own Text => Text
  | Inherited => Text
  | Absent => Count 1
  end.

(** [function newTally(options)] *)
Definition newTally (options : list string) : gmap string TallyValue :=
  foldl (fun t o => tally_set t o (Count 0)) ∅ options.

(** ** Sessions and the server state *)

Record Session := mkSession {
  id : string;
  options : list string;
  endAt : float;
  active : bool;
  votes : gmap string string;           (* deviceId -> choice *)
  tally : gmap string TallyValue;
  timer : option nat                    (* a [Timeout] object, or [null] *)
}.

(** [currentSession] together with the part of the event loop the program
    talks to: the timeouts that are armed.  A [Timeout] object is known by
    a number, and [nextTimer] is the number [setTimeout] hands out next.
    Every timeout of this program has the callback [endSession('time_up')]. *)
Record Server := mkServer {
  currentSession : option Session;
  armed : gset nat;
  nextTimer : nat
}.

Definition initial : Server :=
  {| currentSession := None; armed := ∅; nextTimer := 0 |}.

(** ** Published messages *)

Inductive Message :=
  | Started (sessionId : string) (opts : list string) (end_at : float)
  | Ended (sessionId : string) (reason : string) (t : gmap string TallyValue)
  | TallyUpdated (sessionId : string) (t : gmap string TallyValue)
      (totalVotes : nat).

(** [publish(topic, obj)]: the topic and the message. *)
Definition Published : Type := string * Message.

Definition is_ended (p : Published) : bool :=
  match p.2 with Ended _ _ _ => true | _ => false end.


(** ** [endSession] *)

(** [clearTimeout(h)] *)
Definition clearTimeout (h : nat) (a : gset nat) : gset nat := a ∖ {[ h ]}.

Definition endSession (reason : string) (st : Server)
  : Server * list Published :=
  match currentSession st with
  | None => (st, [])
  | Some s =>
      let a := match timer s with
               | Some h => clearTimeout h (armed st)
               | None => armed st
               end in
      let s' := {| id := id s; options := options s; endAt := endAt s;
                   active := false; votes := votes s; tally := tally s;
                   timer := None |} in
      ({| currentSession := Some s'; armed := a; nextTimer := nextTimer st |},
       [ ("voting/session", Ended (id s) reason (tally s)) ])
  end.

(** ** [POST /api/start] *)

(** The body field [options] as the handler observes it: whether it is an
    array and, for an array, the string conversion [String(o)] of each
    entry, which is also the property key that [t[o] = 0] uses. *)
Inductive OptionsField :=
  | NotAnArray
  | ArrayOf (entries : list string).

Inductive StartResponse :=
  | BadRequest (error : string)                                   (* 400 *)
  | StartOk (sessionId : string) (end_at : float) (opts : list string).

Definition InvalidOptions : StartResponse :=
  BadRequest "options must be an array with at least 2 entries".
Definition InvalidDuration : StartResponse :=
  BadRequest "durationSeconds must be a positive number".

(** The clock reading as a JavaScript number; exact on the range of time
    values, which lie within 8.64e15 of zero. *)
Definition number_of_ms (t : Z) : float :=
  if (t <? 0)%Z
  then PrimFloat.opp (PrimFloat.of_uint63 (Uint63.of_Z (- t)))
  else PrimFloat.of_uint63 (Uint63.of_Z t).

Definition thousand : float := PrimFloat.of_uint63 1000%uint63.

(** [!Number.isFinite(dur) || dur <= 0] *)
Definition bad_duration (dur : float) : bool :=
  negb (PrimFloat.is_finite dur) || PrimFloat.leb dur PrimFloat.zero.

(** The handler.  [now_id] and [now_end] are the two readings of
    [Date.now()], [dur] is [Number(durationSeconds)]. *)
Definition start (now_id now_end : Z) (dur : float) (opts : OptionsField)
    (st : Server) : Server * list Published * StartResponse :=
  match opts with
  | NotAnArray => (st, [], InvalidOptions)
  | ArrayOf entries =>
      if bool_decide (length entries < 2) then (st, [], InvalidOptions)
      else if bad_duration dur then (st, [], InvalidDuration)
      else
        let sid := "sess_" +:+ pretty now_id in
        let end_at := PrimFloat.add (number_of_ms now_end)
                        (PrimFloat.mul dur thousand) in
        let s := {| id := sid; options := entries; endAt := end_at;
                    active := true; votes := ∅; tally := newTally entries;
                    timer := Some (nextTimer st) |} in
        ({| currentSession := Some s;
            armed := {[ nextTimer st ]} ∪ armed st;
            nextTimer := S (nextTimer st) |},
         [ ("voting/session", Started sid entries end_at) ],
         StartOk sid end_at entries)
  end.

(** ** [GET /api/status] and [GET /api/results] *)

Inductive StatusResponse :=
  | StatusInactive                                     (* [{active: false}] *)
  | StatusOf (sessionId : string) (opts : list string) (end_at : float)
      (is_active : bool) (t : gmap string TallyValue).

Definition status (st : Server) : StatusResponse :=
  match currentSession st with
  | None => StatusInactive
  | Some s => StatusOf (id s) (options s) (endAt s) (active s) (tally s)
  end.

Inductive ResultsResponse :=
  | ResultsInactive                         (* [{active: false, tally: {}}] *)
  | ResultsOf (sessionId : string) (is_active : bool)
      (t : gmap string TallyValue).

Definition results (st : Server) : ResultsResponse :=
  match currentSession st with
  | None => ResultsInactive
  | Some s => ResultsOf (id s) (active s) (tally s)
  end.

(** ** The [voting/vote] subscription *)

(** [JSON.parse(packet.payload.toString())] either throws or yields a value. *)
Inductive Payload :=
  | Malformed
  | Parsed (data : JSValue).

(** [sessionId !== currentSession.id] is false only for the very string. *)
Definition same_string (v : JSValue) (s : string) : bool :=
  match v with
  | JStr s' => bool_decide (s' = s)
  | _ => false
  end.

(** The test [!deviceId || typeof deviceId !== 'string'] lets a value pass
    that is a string and not the empty one; [Some d] is that string. *)
Definition device_of (v : JSValue) : option string :=
  if negb (truthy v) then None
  else match v with
       | JStr d => Some d
       | _ => None
       end.

(** [currentSession.options.includes(choice)]: the options are strings, so
    only a string can be included; [Some c] is that string. *)
Definition included (opts : list string) (v : JSValue) : option string :=
  match v with
  | JStr c => if bool_decide (c ∈ opts) then Some c else None
  | _ => None
  end.

(** One name of the pattern [{ sessionId, deviceId, choice } = data || {}]. *)
Definition field (data : JSValue) (k : string) : JSValue :=
  get (if truthy data then data else JObj []) k.

(** How the [try] block is left. *)
Inductive Completion :=
  | Returned       (* by one of the [return cb()] *)
  | Finished       (* past its last statement *)
  | Threw.         (* [JSON.parse] threw; the [catch] swallows it *)

(** The [try] block: the new state, what it published, how often it called
    [cb], and how it was left. *)
Definition try_block (p : Payload) (st : Server)
  : Server * list Published * nat * Completion :=
  match p with
  | Malformed => (st, [], 0, Threw)
  | Parsed data =>
      let sessionId := field data "sessionId" in
      let deviceId := field data "deviceId" in
      let choice := field data "choice" in
      match currentSession st with
      | None => (st, [], 1, Returned)
      | Some s =>
          if negb (active s) then (st, [], 1, Returned)
          else if negb (same_string sessionId (id s)) then (st, [], 1, Returned)
          else match device_of deviceId with
               | None => (st, [], 1, Returned)
               | Some dev =>
                   match included (options s) choice with
                   | None => (st, [], 1, Returned)
                   | Some c =>
                       match votes s !! dev with
                       | Some _ => (st, [], 0, Finished)
                       | None =>
                           let v := <[dev := c]> (votes s) in
                           let t := tally_set (tally s) c
                                      (or_zero_plus_one (tally_get (tally s) c)) in
                           let s' := {| id := id s; options := options s;
                                        endAt := endAt s; active := active s;
                                        votes := v; tally := t;
                                        timer := timer s |} in
                           ({| currentSession := Some s'; armed := armed st;
                               nextTimer := nextTimer st |},
                            [ ("voting/tally", TallyUpdated (id s) t (size v)) ],
                            0, Finished)
                       end
                   end
               end
      end
  end.

(** The handler: the [try] block, then [finally { if (cb) cb(); }] however
    the block was left.  The third component counts the calls of [cb]. *)
Definition on_vote (p : Payload) (st : Server) : Server * list Published * nat :=
  let '(st', out, n, _) := try_block p st in (st', out, n + 1).

(** ** The server as a transition system *)

Inductive Request :=
  | PostStart (now_id now_end : Z) (dur : float) (opts : OptionsField)
  | GetStatus
  | GetResults
  | Vote (p : Payload)
  | TimerFires (h : nat)     (* the event loop runs the callback of timeout [h] *)
  | Signal.                  (* SIGINT or SIGTERM: [shutdown] *)

Definition step (r : Request) (st : Server) : Server * list Published :=
  match r with
  | PostStart now_id now_end dur opts => (start now_id now_end dur opts st).1
  | GetStatus | GetResults => (st, [])
  | Vote p => (on_vote p st).1
  | TimerFires h =>
      if bool_decide (h ∈ armed st)
      then endSession "time_up"
             {| currentSession := currentSession st;
                armed := armed st ∖ {[ h ]};
                nextTimer := nextTimer st |}
      else (st, [])
  | Signal => endSession "shutdown" st
  end.

Fixpoint run (rs : list Request) (st : Server) : Server * list Published :=
  match rs with
  | [] => (st, [])
  | r :: rest =>
      let '(st1, out1) := step r st in
      let '(st2, out2) := run rest st1 in
      (st2, (out1 ++ out2)%list)
  end.

Inductive reachable : Server -> Prop :=
  | reachable_initial : reachable initial
  | reachable_step st r : reachable st -> reachable (step r st).1.

(** ** Counting the ledger *)

(** The number of ledger entries whose value is [o]. *)
Definition count_votes (o : string) (v : gmap string string) : nat :=
  size (filter (fun kv => kv.2 = o) v).

(** The sum of the counts of a tally. *)
Definition tally_sum (t : gmap string TallyValue) : nat :=
  map_fold (fun _ v acc => match v with Count n => n + acc | Text => acc end) 0 t.

Definition ended_count (out : list Published) : nat :=
  length (filter (fun p => is_ended p = true) out).

(** ** Sample inputs *)

Definition five : float := PrimFloat.of_uint63 5%uint63.

(** [{"sessionId": sid, "deviceId": dev, "choice": c}] *)
Definition ballot (sid dev c : string) : JSValue :=
  JObj [ ("sessionId", JStr sid); ("deviceId", JStr dev); ("choice", JStr c) ].

(** The server after [POST /api/start] with [{durationSeconds: 5,
    options: ["A", "B"]}] at clock reading 1700000000000. *)
Definition poll : Request :=
  PostStart 1700000000000 1700000000000 five (ArrayOf ["A"; "B"]).

Definition polling : Server := (step poll initial).1.

(** ... and after a first vote for "A" from "dev1". *)
Definition voted : Server :=
  (step (Vote (Parsed (ballot "sess_1700000000000" "dev1" "A"))) polling).1.

Definition polling_session : Session :=
  {| id := "sess_1700000000000"; options := ["A"; "B"];
     endAt := PrimFloat.add (number_of_ms 1700000000000)
                (PrimFloat.mul five thousand);
     active := true; votes := ∅;
     tally := <["A" := Count 0]> (<["B" := Count 0]> ∅);
     timer := Some 0 |}.

Definition voted_session : Session :=
  {| id := "sess_1700000000000"; options := ["A"; "B"];
     endAt := PrimFloat.add (number_of_ms 1700000000000)
                (PrimFloat.mul five thousand);
     active := true; votes := <["dev1" := "A"]> ∅;
     tally := <["A" := Count 1]> (<["B" := Count 0]> ∅);
     timer := Some 0 |}.

(** ** Notions the statements use *)


Definition is_start (r : Request) : bool :=
  match r with
  | PostStart _ _ _ _ => true
  | _ => false
  end.


(** [!Array.isArray(options) || options.length < 2] *)
Definition too_few (opts : OptionsField) : bool :=
  match opts with
  | NotAnArray => true
  | ArrayOf entries => bool_decide (length entries < 2)
  end.

(** [setTimeout] hands out a [Timeout] object nobody holds yet. *)
Definition timers_fresh (st : Server) : Prop :=
  (forall h, h ∈ armed st -> h < nextTimer st) /\
  (forall s h, currentSession st = Some s -> timer s = Some h ->
               h < nextTimer st).

Definition sample_end : float :=
  PrimFloat.add (number_of_ms 1700000000000) (PrimFloat.mul five thousand).

(** The tally is the one that counting the ledger gives: every option
    carries the number of ledger entries that chose it, nothing else has an
    entry, and the counts add up to the size of the ledger. *)
Definition counted (s : Session) : Prop :=
  (forall o, tally s !! o =
     if bool_decide (o ∈ options s)
     then Some (Count (count_votes o (votes s))) else None)
  /\ tally_sum (tally s) = size (votes s).

(** A session with the option ["__proto__"], and a vote for it. *)
Definition proto_poll : Request :=
  PostStart 1700000000000 1700000000000 five (ArrayOf ["__proto__"; "B"]).

Definition proto_vote : Request :=
  Vote (Parsed (ballot "sess_1700000000000" "dev1" "__proto__")).

(** What counting the ledger gives for a plain object: every option other
    than ["__proto__"] carries the number of ledger entries that chose it,
    no other name has an entry, and the counts add up to the number of
    ledger entries that chose something else than ["__proto__"]. *)
Definition tallied (s : Session) : Prop :=
  (forall o, tally s !! o =
     if bool_decide (o ∈ options s /\ o <> "__proto__")
     then Some (Count (count_votes o (votes s))) else None)
  /\ tally_sum (tally s) + count_votes "__proto__" (votes s)
     = size (votes s).

(** Every ledger entry is a non-empty device id with one of the options. *)
Definition ledger_valid (s : Session) : Prop :=
  forall dev c, votes s !! dev = Some c -> dev <> "" /\ c ∈ options s.

(** An active session holds an armed timeout, an ended one holds none. *)
Definition timer_linked (st : Server) (s : Session) : Prop :=
  if active s then exists h, timer s = Some h /\ h ∈ armed st
  else timer s = None.

(** The message [p] is on the topic of its kind and describes session [s]. *)
Definition announces (p : Published) (s : Session) : Prop :=
  match p with
  | (topic, Started sid opts e) =>
      topic = "voting/session" /\ sid = id s /\ opts = options s /\
      e = endAt s /\ active s = true
  | (topic, Ended sid _ t) =>
      topic = "voting/session" /\ sid = id s /\ t = tally s /\
      active s = false
  | (topic, TallyUpdated sid t n) =>
      topic = "voting/tally" /\ sid = id s /\ t = tally s /\
      n = size (votes s) /\ active s = true
  end.

(** A second poll started while the first is still open. *)
Definition second_poll : Request :=
  PostStart 1700000000007 1700000000007 five (ArrayOf ["C"; "D"]).

(** * Theorems *)

Lemma polling_current : currentSession polling = Some polling_session.
Proof. vm_compute. reflexivity. Qed.

Lemma voted_current : currentSession voted = Some voted_session.
Proof. vm_compute. reflexivity. Qed.

Lemma polling_reachable : reachable polling.
Proof. apply reachable_step, reachable_initial. Qed.

Lemma voted_reachable : reachable voted.
Proof. apply reachable_step, polling_reachable. Qed.

(** ** [endSession] *)

Lemma endSession_none reason st :
  currentSession st = None -> endSession reason st = (st, []).
Proof. intros H. unfold endSession. by rewrite H. Qed.

Lemma endSession_some reason st s :
  currentSession st = Some s ->
  endSession reason st =
    ({| currentSession :=
          Some {| id := id s; options := options s; endAt := endAt s;
                  active := false; votes := votes s; tally := tally s;
                  timer := None |};
        armed := match timer s with
                 | Some h => clearTimeout h (armed st)
                 | None => armed st
                 end;
        nextTimer := nextTimer st |},
     [ ("voting/session", Ended (id s) reason (tally s)) ]).
Proof. intros H. unfold endSession. by rewrite H. Qed.

(** C10: with a current session [s], [endSession] leaves the id, the
    options, [endAt], the ledger and the tally of the session as they were;
    it clears [active] and [timer], and the one message it publishes, the
    "ended" message, carries the tally the session had at that moment. *)
Theorem endSession_frame reason st s :
  currentSession st = Some s ->
  exists s',
    currentSession (endSession reason st).1 = Some s' /\
    id s' = id s /\ options s' = options s /\ endAt s' = endAt s /\
    votes s' = votes s /\ tally s' = tally s /\
    active s' = false /\ timer s' = None /\
    (endSession reason st).2 =
      [ ("voting/session", Ended (id s) reason (tally s')) ].
Proof.
  intros Hs. rewrite (endSession_some _ _ _ Hs). simpl.
  eexists. split; [reflexivity|]. simpl. repeat split.
Qed.

Lemma endSession_frame_witness :
  exists s',
    currentSession (endSession "shutdown" voted).1 = Some s' /\
    id s' = id voted_session /\ options s' = options voted_session /\
    endAt s' = endAt voted_session /\
    votes s' = votes voted_session /\ tally s' = tally voted_session /\
    active s' = false /\ timer s' = None /\
    (endSession "shutdown" voted).2 =
      [ ("voting/session", Ended (id voted_session) "shutdown" (tally s')) ].
Proof.
  apply (endSession_frame "shutdown" voted voted_session).
  vm_compute. reflexivity.
Defined.

(** C2, as the code has it: with a current session, every call of
    [endSession] publishes one "ended" message, also a second call in
    succession, which changes nothing else: the state after the second call
    is the state after the first. *)
Theorem endSession_twice r1 r2 st :
  is_Some (currentSession st) ->
  let first := endSession r1 st in
  let second := endSession r2 first.1 in
  ended_count first.2 = 1 /\ ended_count second.2 = 1 /\
  ended_count (first.2 ++ second.2)%list = 2 /\
  second.1 = first.1.
Proof.
  intros [s Hs]. unfold endSession. rewrite Hs. simpl. repeat split.
Qed.

Lemma endSession_twice_witness :
  let first := endSession "time_up" voted in
  let second := endSession "shutdown" first.1 in
  ended_count first.2 = 1 /\ ended_count second.2 = 1 /\
  ended_count (first.2 ++ second.2)%list = 2 /\
  second.1 = first.1.
Proof.
  apply (endSession_twice "time_up" "shutdown" voted).
  exists voted_session. vm_compute. reflexivity.
Defined.

(** C2 as stated fails: the timer fires and then the process is told to
    shut down; both calls of [endSession] publish an "ended" message. *)
Lemma endSession_twice_emits_twice :
  ended_count (run [TimerFires 0; Signal] voted).2 = 2.
Proof. vm_compute. reflexivity. Qed.

(** ** Votes that are not admitted *)

Lemma device_of_string v dev : device_of v = Some dev -> v = JStr dev.
Proof.
  unfold device_of. destruct (truthy v); simpl; [|done].
  destruct v; try done. by intros [= ->].
Qed.

Lemma included_string opts v c :
  included opts v = Some c -> v = JStr c /\ c ∈ opts.
Proof.
  destruct v; simpl; try done.
  case_bool_decide; [|done]. by intros [= ->].
Qed.

Lemma same_string_true v s : same_string v s = true -> v = JStr s.
Proof.
  destruct v; simpl; try done.
  case_bool_decide; [|done]. by subst.
Qed.


Lemma on_vote_inactive p st s :
  currentSession st = Some s -> active s = false ->
  (on_vote p st).1 = (st, []).
Proof.
  intros H Ha. unfold on_vote, try_block. destruct p; [done|].
  by rewrite H, Ha.
Qed.


(** A vote from a device that is in the ledger already. *)
Lemma on_vote_known_device data st s dev :
  currentSession st = Some s ->
  field data "deviceId" = JStr dev -> is_Some (votes s !! dev) ->
  (on_vote (Parsed data) st).1 = (st, []).
Proof.
  intros H Hd [c Hc]. unfold on_vote, try_block. rewrite H.
  destruct (negb (active s)); [done|].
  destruct (negb (same_string _ _)); [done|].
  destruct (device_of _) as [dev'|] eqn:Hdev; [|done].
  apply device_of_string in Hdev. rewrite Hd in Hdev.
  injection Hdev as <-.
  destruct (included _ _); [|done]. by rewrite Hc.
Qed.

(** What an admitted vote does: the first message of the handler is a
    tally update exactly when the vote entered the ledger. *)
Lemma on_vote_published data st m out :
  (on_vote (Parsed data) st).1.2 = m :: out ->
  exists s dev c,
    currentSession st = Some s /\ active s = true /\
    field data "sessionId" = JStr (id s) /\
    field data "deviceId" = JStr dev /\ dev <> "" /\
    field data "choice" = JStr c /\ c ∈ options s /\
    votes s !! dev = None /\
    currentSession (on_vote (Parsed data) st).1.1 =
      Some {| id := id s; options := options s; endAt := endAt s;
              active := active s; votes := <[dev := c]> (votes s);
              tally := tally_set (tally s) c
                         (or_zero_plus_one (tally_get (tally s) c));
              timer := timer s |}.
Proof.
  unfold on_vote, try_block.
  destruct (currentSession st) as [s|] eqn:H; [|done].
  destruct (active s) eqn:Ha; simpl; [|done].
  destruct (same_string _ _) eqn:Hsid; simpl; [|done].
  destruct (device_of _) as [dev|] eqn:Hdev; [|done].
  destruct (included _ _) as [c|] eqn:Hc; [|done].
  destruct (votes s !! dev) eqn:Hv; [done|]. simpl. intros _.
  apply same_string_true in Hsid. apply included_string in Hc as [Hc Hin].
  pose proof (device_of_string _ _ Hdev) as Hd.
  exists s, dev, c. repeat split; try done.
  - intros ->. rewrite Hd in Hdev. done.
  - by rewrite Ha.
Qed.

(** The two outcomes of the handler for the state: nothing, or one vote
    entered in ledger and tally. *)
Lemma on_vote_cases p st :
  (on_vote p st).1 = (st, [])
  \/ exists s dev c,
       currentSession st = Some s /\ active s = true /\
       c ∈ options s /\ votes s !! dev = None /\
       let t := tally_set (tally s) c
                  (or_zero_plus_one (tally_get (tally s) c)) in
       (on_vote p st).1 =
         ({| currentSession :=
               Some {| id := id s; options := options s; endAt := endAt s;
                       active := true; votes := <[dev := c]> (votes s);
                       tally := t; timer := timer s |};
             armed := armed st; nextTimer := nextTimer st |},
          [ ("voting/tally",
             TallyUpdated (id s) t (size (<[dev := c]> (votes s)))) ]).
Proof.
  unfold on_vote, try_block. destruct p as [|data]; [by left|].
  destruct (currentSession st) as [s|] eqn:H; [|by left].
  destruct (active s) eqn:Ha; simpl; [|by left].
  destruct (negb (same_string _ _)); [by left|].
  destruct (device_of _) as [dev|]; [|by left].
  destruct (included _ _) as [c|] eqn:Hc; [|by left].
  destruct (votes s !! dev) eqn:Hv; [by left|]. right.
  apply included_string in Hc as [_ Hin].
  exists s, dev, c. by rewrite Ha.
Qed.


Lemma run_cons r rs st :
  run (r :: rs) st = ((run rs (step r st).1).1, ((step r st).2 ++ (run rs (step r st).1).2)%list).
Proof.
  simpl. destruct (step r st) as [st1 out1]. simpl.
  by destruct (run rs st1).
Qed.







(** After an admitted vote a second one from the same device leaves the
    state the first one produced. *)
Lemma second_vote_ignored st dev data data' :
  field data "deviceId" = JStr dev ->
  field data' "deviceId" = JStr dev ->
  (on_vote (Parsed data) st).1.2 <> [] ->
  (on_vote (Parsed data') (on_vote (Parsed data) st).1.1).1
    = ((on_vote (Parsed data) st).1.1, []).
Proof.
  intros Hd Hd' Hout.
  destruct ((on_vote (Parsed data) st).1.2) as [|m out] eqn:E; [done|].
  destruct (on_vote_published _ _ _ _ E)
    as (s0 & dev0 & c & Hs0 & _ & _ & Hd0 & _ & _ & _ & _ & Hnew).
  rewrite Hd in Hd0. injection Hd0 as <-.
  eapply on_vote_known_device; [exact Hnew|exact Hd'|].
  simpl. rewrite lookup_insert_eq. by eexists.
Qed.

(** C4: in an active session a vote from a device that is in the ledger
    already changes nothing and publishes nothing, whatever it chooses: the
    state stays the one the first vote produced. *)
Theorem first_vote_wins st s dev data :
  currentSession st = Some s -> active s = true ->
  field data "deviceId" = JStr dev -> is_Some (votes s !! dev) ->
  (on_vote (Parsed data) st).1 = (st, []).
Proof. intros Hs _ Hd Hin. by eapply on_vote_known_device. Qed.

Lemma first_vote_wins_witness :
  (on_vote (Parsed (ballot "sess_1700000000000" "dev1" "B")) voted).1
    = (voted, []).
Proof.
  apply (first_vote_wins voted voted_session "dev1"
           (ballot "sess_1700000000000" "dev1" "B")).
  - vm_compute. reflexivity.
  - reflexivity.
  - reflexivity.
  - vm_compute. by eexists.
Defined.

(** ** Acknowledging a vote message *)

Lemma on_vote_acks p st :
  (on_vote p st).2 =
    match (try_block p st).2 with
    | Returned => 2
    | Finished | Threw => 1
    end.
Proof.
  unfold on_vote, try_block. destruct p; [done|].
  destruct (currentSession st) as [s|]; [|done].
  destruct (negb (active s)); [done|].
  destruct (negb (same_string _ _)); [done|].
  destruct (device_of _); [|done].
  destruct (included _ _); [|done].
  by destruct (votes s !! _).
Qed.

(** A message that does not parse is acknowledged once. *)
Lemma on_vote_malformed st : on_vote Malformed st = (st, [], 1).
Proof. reflexivity. Qed.

(** C7 at a message the handler rejects: a well-formed vote that arrives
    while no session exists is acknowledged twice, by [return cb()] and
    again by the [finally] block. *)
Theorem rejected_vote_acknowledged_twice :
  on_vote (Parsed (ballot "sess_1700000000000" "dev1" "A")) initial
    = (initial, [], 2).
Proof. reflexivity. Qed.

(** ** Starting a session *)

Lemma start_unfold now_id now_end dur opts st :
  start now_id now_end dur opts st =
    if too_few opts then (st, [], InvalidOptions)
    else if bad_duration dur then (st, [], InvalidDuration)
    else match opts with
         | NotAnArray => (st, [], InvalidOptions)
         | ArrayOf entries =>
             let sid := "sess_" +:+ pretty now_id in
             let end_at := PrimFloat.add (number_of_ms now_end)
                             (PrimFloat.mul dur thousand) in
             ({| currentSession :=
                   Some {| id := sid; options := entries; endAt := end_at;
                           active := true; votes := ∅;
                           tally := newTally entries;
                           timer := Some (nextTimer st) |};
                 armed := {[ nextTimer st ]} ∪ armed st;
                 nextTimer := S (nextTimer st) |},
              [ ("voting/session", Started sid entries end_at) ],
              StartOk sid end_at entries)
         end.
Proof.
  unfold start, too_few. destruct opts as [|entries]; [done|].
  by destruct (bool_decide _), (bad_duration dur).
Qed.

Lemma start_ok_inv now_id now_end dur opts st sid e o :
  (start now_id now_end dur opts st).2 = StartOk sid e o ->
  too_few opts = false /\ bad_duration dur = false /\
  sid = "sess_" +:+ pretty now_id /\ opts = ArrayOf o.
Proof.
  rewrite start_unfold.
  destruct (too_few opts); [done|]. destruct (bad_duration dur); [done|].
  destruct opts; [done|]. simpl. by intros [= <- <- <-].
Qed.

(** C6, as the code has it: a request with fewer than two options fails
    with [InvalidOptions]; a request with at least two options whose
    duration is not finite or not above zero fails with [InvalidDuration];
    either way the state is the one before and nothing is published. *)
Theorem start_rejects now_id now_end dur opts st :
  too_few opts = true \/ bad_duration dur = true ->
  start now_id now_end dur opts st =
    (st, [], if too_few opts then InvalidOptions else InvalidDuration).
Proof.
  intros H. rewrite start_unfold.
  destruct (too_few opts); [done|].
  destruct H as [H|H]; [done|]. by rewrite H.
Qed.

Lemma start_rejects_witness :
  start 1700000000007 1700000000007 PrimFloat.zero (ArrayOf ["A"; "B"]) voted
    = (voted, [], InvalidDuration).
Proof.
  apply (start_rejects 1700000000007 1700000000007 PrimFloat.zero
           (ArrayOf ["A"; "B"]) voted).
  right. reflexivity.
Defined.

(** C6 as stated fails: one option and the duration 0; the duration is not
    positive, and the request fails with [InvalidOptions]. *)
Lemma bad_duration_reported_as_options :
  bad_duration PrimFloat.zero = true /\
  start 1700000000007 1700000000007 PrimFloat.zero (ArrayOf ["A"]) voted
    = (voted, [], InvalidOptions) /\
  InvalidOptions <> InvalidDuration.
Proof. repeat split. discriminate. Qed.

(** ** Timers *)

Lemma start_armed_subset now_id now_end dur opts st :
  armed st ⊆ armed (start now_id now_end dur opts st).1.1.
Proof.
  rewrite start_unfold.
  destruct (too_few opts); [done|]. destruct (bad_duration dur); [done|].
  destruct opts; [done|]. simpl. set_solver.
Qed.

Lemma step_timers_fresh r st : timers_fresh st -> timers_fresh (step r st).1.
Proof.
  intros [Ha Hs]. destruct r; simpl; try done.
  - rewrite start_unfold.
    destruct (too_few opts); [done|]. destruct (bad_duration dur); [done|].
    destruct opts; [done|]. simpl. split; simpl.
    + intros h [->%elem_of_singleton | Hin]%elem_of_union; [lia|].
      apply Ha in Hin. lia.
    + intros s h [= <-]. simpl. intros [= <-]. lia.
  - destruct (on_vote_cases p st) as [-> | (s & dev & c & E & _ & _ & _ & ->)];
      [done|].
    split; simpl; [done|]. intros s' h [= <-]. simpl. by apply Hs.
  - case_bool_decide; [|done]. unfold endSession. simpl.
    destruct (currentSession st) as [s|] eqn:E; simpl.
    + split; simpl.
      * intros h0 Hin. apply Ha. unfold clearTimeout in Hin.
        destruct (timer s); set_solver.
      * by intros s' h0 [= <-].
    + split; simpl.
      * intros h0 Hin. apply Ha. set_solver.
      * intros s' h0 E'. simpl in E'. congruence.
  - unfold endSession.
    destruct (currentSession st) as [s|] eqn:E; simpl.
    + split; simpl.
      * intros h0 Hin. apply Ha. unfold clearTimeout in Hin.
        destruct (timer s); set_solver.
      * by intros s' h0 [= <-].
    + split; [done|]. intros s' h0 E'. congruence.
Qed.

Lemma reachable_timers_fresh st : reachable st -> timers_fresh st.
Proof.
  induction 1 as [|st r _ IH]; [|by apply step_timers_fresh].
  split; [set_solver|done].
Qed.

(** C8: a successful start while a session is active and its timer is
    armed puts the new session in the slot with a timer of its own and
    leaves the old timer armed. *)
Theorem start_leaves_old_timer_armed st s h now_id now_end dur opts :
  reachable st ->
  currentSession st = Some s -> active s = true ->
  timer s = Some h -> h ∈ armed st ->
  too_few opts = false -> bad_duration dur = false ->
  let st' := (start now_id now_end dur opts st).1.1 in
  exists s',
    currentSession st' = Some s' /\
    id s' = "sess_" +:+ pretty now_id /\ active s' = true /\
    timer s' = Some (nextTimer st) /\ nextTimer st <> h /\
    h ∈ armed st' /\ armed st' = {[ nextTimer st ]} ∪ armed st.
Proof.
  intros Hr Hs _ Ht Hh Hopts Hdur. simpl.
  rewrite start_unfold, Hopts, Hdur. destruct opts; [done|]. simpl.
  eexists. split; [reflexivity|]. simpl. repeat split.
  - apply reachable_timers_fresh in Hr as [Ha _]. apply Ha in Hh. lia.
  - set_solver.
Qed.

Lemma start_leaves_old_timer_armed_witness :
  let st' := (start 1700000000007 1700000000007 five (ArrayOf ["C"; "D"])
                voted).1.1 in
  exists s',
    currentSession st' = Some s' /\
    id s' = "sess_" +:+ pretty 1700000000007%Z /\ active s' = true /\
    timer s' = Some (nextTimer voted) /\ nextTimer voted <> 0 /\
    0 ∈ armed st' /\ armed st' = {[ nextTimer voted ]} ∪ armed voted.
Proof.
  apply (start_leaves_old_timer_armed voted voted_session 0
           1700000000007 1700000000007 five (ArrayOf ["C"; "D"])).
  - apply (reachable_step polling), (reachable_step initial), reachable_initial.
  - vm_compute. reflexivity.
  - reflexivity.
  - reflexivity.
  - vm_compute. set_solver.
  - reflexivity.
  - reflexivity.
Defined.

(** ** Session ids *)

Lemma step_keeps_id r st s :
  is_start r = false -> currentSession st = Some s ->
  exists s', currentSession (step r st).1 = Some s' /\ id s' = id s.
Proof.
  intros Hr Hs. destruct r; simpl in *; try done; try by exists s.
  - destruct (on_vote_cases p st) as [-> | (s0 & dev & c & E & _ & _ & _ & ->)];
      [by exists s|].
    simpl. eexists. split; [reflexivity|]. simpl. congruence.
  - case_bool_decide; [|by exists s]. unfold endSession. simpl.
    rewrite Hs. simpl. by eexists.
  - unfold endSession. rewrite Hs. simpl. by eexists.
Qed.

Lemma run_keeps_id rs st s :
  Forall (fun r => is_start r = false) rs -> currentSession st = Some s ->
  exists s', currentSession (run rs st).1 = Some s' /\ id s' = id s.
Proof.
  intros Hrs. revert st s.
  induction Hrs as [|r rs Hr _ IH]; intros st s Hs; [by exists s|].
  rewrite run_cons. simpl.
  destruct (step_keeps_id r st s Hr Hs) as (s1 & Hs1 & <-).
  by apply IH.
Qed.

Lemma session_id_inj (a b : Z) :
  "sess_" +:+ pretty a = "sess_" +:+ pretty b -> a = b.
Proof. simpl. intros [= H]. by apply (inj pretty). Qed.

(** C9, as the code has it: a successful start names the session after the
    clock reading, ["sess_"] followed by the milliseconds in decimal; the
    current session keeps that id under every later request that is not a
    start; and two successful starts assign the same id exactly when they
    read the same millisecond. *)
Theorem session_id_is_clock_reading
    n1 e1 d1 o1 st1 st1' out1 sid1 x1 y1 n2 e2 d2 o2 st2 sid2 x2 y2 rs :
  start n1 e1 d1 o1 st1 = (st1', out1, StartOk sid1 x1 y1) ->
  (start n2 e2 d2 o2 st2).2 = StartOk sid2 x2 y2 ->
  Forall (fun r => is_start r = false) rs ->
  sid1 = "sess_" +:+ pretty n1
  /\ (exists s, currentSession (run rs st1').1 = Some s /\ id s = sid1)
  /\ (sid1 = sid2 <-> n1 = n2).
Proof.
  intros H1 H2 Hrs.
  pose proof (f_equal snd H1) as H1'. simpl in H1'.
  apply start_ok_inv in H1' as (Ht & Hd & -> & ->).
  apply start_ok_inv in H2 as (_ & _ & -> & _).
  rewrite start_unfold, Ht, Hd in H1. simpl in H1.
  injection H1 as <- _ _. repeat split.
  - match goal with
    | |- context [run rs ?st] =>
        destruct (run_keeps_id rs st _ Hrs eq_refl) as (s' & Hs' & Hid)
    end.
    by exists s'.
  - apply session_id_inj.
  - by intros ->.
Qed.

Lemma session_id_is_clock_reading_witness :
  "sess_1700000000000" = "sess_" +:+ pretty 1700000000000%Z
  /\ (exists s,
        currentSession
          (run [ Vote (Parsed (ballot "sess_1700000000000" "dev1" "A"));
                 TimerFires 0 ] polling).1 = Some s
        /\ id s = "sess_1700000000000")
  /\ ("sess_1700000000000" = "sess_1700000000007" <->
      1700000000000%Z = 1700000000007%Z).
Proof.
  apply (session_id_is_clock_reading
           1700000000000 1700000000000 five (ArrayOf ["A"; "B"]) initial
           polling [ ("voting/session",
                      Started "sess_1700000000000" ["A"; "B"] sample_end) ]
           "sess_1700000000000" sample_end ["A"; "B"]
           1700000000007 1700000000007 five (ArrayOf ["C"; "D"]) polling
           "sess_1700000000007"
           (PrimFloat.add (number_of_ms 1700000000007)
              (PrimFloat.mul five thousand))
           ["C"; "D"]).
  - vm_compute. reflexivity.
  - vm_compute. reflexivity.
  - repeat constructor.
Defined.

(** C9 as stated fails: two requests handled within one millisecond both
    succeed and get the same id. *)
Lemma same_millisecond_same_id :
  (start 1700000000000 1700000000000 five (ArrayOf ["A"; "B"]) initial).2
    = StartOk "sess_1700000000000" sample_end ["A"; "B"]
  /\ (start 1700000000000 1700000000000 five (ArrayOf ["C"; "D"]) polling).2
       = StartOk "sess_1700000000000" sample_end ["C"; "D"].
Proof. split; vm_compute; reflexivity. Qed.

(** ** The tally object *)

Lemma tally_set_plain t k v :
  t !! "__proto__" = None ->
  tally_set t k v = if bool_decide (k = "__proto__") then t else <[k := v]> t.
Proof.
  intros H. unfold tally_set. case_bool_decide as Hk.
  - subst. by rewrite H.
  - by destruct (t !! k).
Qed.

Lemma tally_set_proto t k v :
  t !! "__proto__" = None -> tally_set t k v !! "__proto__" = None.
Proof.
  intros H. rewrite tally_set_plain by done.
  case_bool_decide; [done|]. by rewrite lookup_insert_ne.
Qed.

Lemma fold_tally_set_lookup opts acc o :
  acc !! "__proto__" = None ->
  foldl (fun t o => tally_set t o (Count 0)) acc opts !! o =
    if bool_decide (o ∈ opts /\ o <> "__proto__") then Some (Count 0)
    else acc !! o.
Proof.
  revert acc. induction opts as [|k opts IH]; intros acc Hacc; simpl.
  - done.
  - rewrite IH by by apply tally_set_proto.
    rewrite tally_set_plain by done.
    destruct (bool_decide (o ∈ opts /\ o <> "__proto__")) eqn:E1;
      destruct (bool_decide (o ∈ k :: opts /\ o <> "__proto__")) eqn:E2;
      destruct (bool_decide (k = "__proto__")) eqn:E3;
      repeat match goal with
        | H : bool_decide _ = true |- _ => apply bool_decide_eq_true in H
        | H : bool_decide _ = false |- _ => apply bool_decide_eq_false in H
        end;
      rewrite ?elem_of_cons in *; try done; try naive_solver.
    + destruct (decide (o = k)) as [->|Hne]; [|naive_solver].
      by rewrite lookup_insert_eq.
    + destruct (decide (o = k)) as [->|Hne]; [naive_solver|].
      by rewrite lookup_insert_ne.
Qed.

(** [newTally] gives every option the count 0, except that the option
    ["__proto__"] gets no entry. *)
Lemma newTally_lookup opts o :
  newTally opts !! o =
    if bool_decide (o ∈ opts /\ o <> "__proto__") then Some (Count 0)
    else None.
Proof. unfold newTally. by rewrite fold_tally_set_lookup. Qed.

(** ** Counting *)

Lemma count_votes_empty o : count_votes o ∅ = 0.
Proof. unfold count_votes. by rewrite map_filter_empty, map_size_empty. Qed.

Lemma count_votes_insert o dev c (v : gmap string string) :
  v !! dev = None ->
  count_votes o (<[dev := c]> v) =
    if bool_decide (o = c) then S (count_votes o v) else count_votes o v.
Proof.
  intros Hv. unfold count_votes. case_bool_decide as Hoc.
  - rewrite map_filter_insert_True by (simpl; congruence).
    apply map_size_insert_None, map_lookup_filter_None_2. by left.
  - rewrite map_filter_insert_False by (simpl; congruence).
    by rewrite delete_id.
Qed.

Lemma tally_sum_insert_fresh (t : gmap string TallyValue) k n :
  t !! k = None -> tally_sum (<[k := Count n]> t) = n + tally_sum t.
Proof.
  intros Hk. unfold tally_sum.
  rewrite map_fold_insert_L; [done| |done].
  intros j1 j2 [n1|] [n2|] y _ _ _; lia.
Qed.

Lemma tally_sum_bump (t : gmap string TallyValue) k n :
  t !! k = Some (Count n) ->
  tally_sum (<[k := Count (n + 1)]> t) = S (tally_sum t).
Proof.
  intros Hk.
  rewrite <- (insert_delete_id t k (Count n)) at 2 by done.
  rewrite <- (insert_delete_eq t).
  rewrite !tally_sum_insert_fresh by apply lookup_delete_eq. lia.
Qed.

Lemma tally_sum_zero (t : gmap string TallyValue) :
  (forall k v, t !! k = Some v -> v = Count 0) -> tally_sum t = 0.
Proof.
  induction t as [|k v t Hk IH] using map_ind; intros Hall; [done|].
  rewrite (Hall k v) by apply lookup_insert_eq.
  rewrite tally_sum_insert_fresh by done. simpl. apply IH.
  intros k' v' Hk'. apply (Hall k').
  rewrite lookup_insert_ne; [done|]. intros ->. congruence.
Qed.

Lemma newTally_sum opts : tally_sum (newTally opts) = 0.
Proof.
  apply tally_sum_zero. intros k v. rewrite newTally_lookup.
  case_bool_decide; congruence.
Qed.

(** A new session without the option ["__proto__"] starts counted. *)
Lemma counted_new sid entries e h :
  "__proto__" ∉ entries ->
  counted {| id := sid; options := entries; endAt := e; active := true;
             votes := ∅; tally := newTally entries; timer := h |}.
Proof.
  intros Hp. split; simpl.
  - intros o. rewrite newTally_lookup, count_votes_empty.
    repeat case_bool_decide; try done; naive_solver.
  - by rewrite newTally_sum, map_size_empty.
Qed.

(** Admitting a vote keeps the session counted. *)
Lemma counted_vote s dev c :
  counted s -> c ∈ options s -> votes s !! dev = None ->
  counted {| id := id s; options := options s; endAt := endAt s;
             active := true; votes := <[dev := c]> (votes s);
             tally := tally_set (tally s) c
                        (or_zero_plus_one (tally_get (tally s) c));
             timer := timer s |}.
Proof.
  intros [Hl Hsum] Hc Hv.
  pose proof (Hl c) as Hlc. rewrite bool_decide_eq_true_2 in Hlc by done.
  unfold tally_set, tally_get. rewrite Hlc. simpl.
  split; simpl.
  - intros o. rewrite count_votes_insert by done.
    destruct (decide (o = c)) as [->|Hne].
    + rewrite lookup_insert_eq, !bool_decide_eq_true_2 by done.
      do 2 f_equal. lia.
    + rewrite lookup_insert_ne by done.
      rewrite (bool_decide_eq_false_2 (o = c)) by done. apply Hl.
  - rewrite (tally_sum_bump _ _ _ Hlc), map_size_insert_None by done.
    by rewrite Hsum.
Qed.

Lemma step_counted r st :
  (forall s, currentSession st = Some s ->
             "__proto__" ∉ options s -> counted s) ->
  forall s', currentSession (step r st).1 = Some s' ->
             "__proto__" ∉ options s' -> counted s'.
Proof.
  intros IH s'. destruct r; simpl; try apply IH.
  - rewrite start_unfold.
    destruct (too_few opts); [apply IH|].
    destruct (bad_duration dur); [apply IH|].
    destruct opts; [apply IH|]. simpl.
    intros [= <-]. simpl. apply counted_new.
  - destruct (on_vote_cases p st)
      as [-> | (s & dev & c & E & _ & Hc & Hv & ->)]; [apply IH|].
    simpl. intros [= <-]. simpl. intros Hp.
    apply counted_vote; [by apply IH|done|done].
  - case_bool_decide; [|apply IH]. unfold endSession. simpl.
    destruct (currentSession st) as [s|] eqn:E; simpl; [|done].
    intros [= <-]. simpl. intros Hp.
    destruct (IH s eq_refl Hp) as [Hl Hsum]. by split.
  - unfold endSession.
    destruct (currentSession st) as [s|] eqn:E; simpl; [|by rewrite E].
    intros [= <-]. simpl. intros Hp.
    destruct (IH s eq_refl Hp) as [Hl Hsum]. by split.
Qed.

(** In every reachable state the tally of a session without the option
    ["__proto__"] is the one that counting its ledger gives. *)
Lemma reachable_counted st s :
  reachable st -> currentSession st = Some s ->
  "__proto__" ∉ options s -> counted s.
Proof.
  intros Hr. revert s. induction Hr as [|st r _ IH]; [done|].
  by apply step_counted.
Qed.

(** ** Start, then status *)

(** A successful start followed by [GET /api/status]: the session is
    active, has the options of the request and the tally [newTally] built. *)
Lemma start_then_status now_id now_end dur entries st :
  too_few (ArrayOf entries) = false -> bad_duration dur = false ->
  status (start now_id now_end dur (ArrayOf entries) st).1.1 =
    StatusOf ("sess_" +:+ pretty now_id) entries
      (PrimFloat.add (number_of_ms now_end) (PrimFloat.mul dur thousand))
      true (newTally entries).
Proof. intros Ht Hd. by rewrite start_unfold, Ht, Hd. Qed.

(** Without the option ["__proto__"] the keys of the new tally are the
    options, each with the count 0. *)
Lemma newTally_zero opts o :
  "__proto__" ∉ opts ->
  newTally opts !! o = if bool_decide (o ∈ opts) then Some (Count 0) else None.
Proof.
  intros Hp. rewrite newTally_lookup.
  repeat case_bool_decide; try done; naive_solver.
Qed.

(** C5 at the options ["__proto__"] and ["B"], two distinct strings, with
    the duration 5: the start succeeds and [GET /api/status] shows the
    session active with both options, and a tally whose only key is ["B"]:
    the assignment [t["__proto__"] = 0] of [newTally] left no entry. *)
Theorem proto_option_has_no_tally_entry :
  let st := (step proto_poll initial).1 in
  let t : gmap string TallyValue := <["B" := Count 0]> ∅ in
  status st =
    StatusOf "sess_1700000000000" ["__proto__"; "B"] sample_end true t
  /\ t !! "__proto__" = None
  /\ dom t = ({[ "B" ]} : gset string).
Proof.
  split; [vm_compute; reflexivity|]. split; [reflexivity|].
  apply set_eq. intros k. rewrite elem_of_dom, elem_of_singleton.
  destruct (decide (k = "B")) as [->|Hne].
  - by rewrite lookup_insert_eq.
  - rewrite lookup_insert_ne, lookup_empty by done. split; [by intros [??]|done].
Qed.

(** C1 in a reachable state: the poll has the options ["__proto__"] and
    ["B"], and "dev1" votes for ["__proto__"].  The vote enters the ledger
    and a tally update reports one vote in total, but the tally has no
    entry for the option and its counts add up to 0. *)
Theorem proto_vote_is_not_counted :
  let r := run [proto_poll; proto_vote] initial in
  let t : gmap string TallyValue := <["B" := Count 0]> ∅ in
  exists s,
    currentSession r.1 = Some s /\ active s = true /\
    options s = ["__proto__"; "B"] /\
    votes s = <["dev1" := "__proto__"]> ∅ /\ tally s = t /\
    count_votes "__proto__" (votes s) = 1 /\
    tally s !! "__proto__" = None /\
    tally_sum (tally s) = 0 /\ size (votes s) = 1 /\
    r.2 = [ ("voting/session",
             Started "sess_1700000000000" ["__proto__"; "B"] sample_end);
            ("voting/tally", TallyUpdated "sess_1700000000000" t 1) ].
Proof.
  eexists. split; [vm_compute; reflexivity|].
  repeat split; vm_compute; reflexivity.
Qed.

(** * Further properties of the code *)

(** ** The tally in every reachable state *)

Lemma tallied_new sid entries e h :
  tallied {| id := sid; options := entries; endAt := e; active := true;
             votes := ∅; tally := newTally entries; timer := h |}.
Proof.
  split; simpl.
  - intros o. by rewrite newTally_lookup, count_votes_empty.
  - by rewrite newTally_sum, count_votes_empty, map_size_empty.
Qed.

Lemma tallied_vote s dev c :
  tallied s -> c ∈ options s -> votes s !! dev = None ->
  tallied {| id := id s; options := options s; endAt := endAt s;
             active := true; votes := <[dev := c]> (votes s);
             tally := tally_set (tally s) c
                        (or_zero_plus_one (tally_get (tally s) c));
             timer := timer s |}.
Proof.
  intros [Hl Hsum] Hc Hv. pose proof (Hl c) as Hlc.
  destruct (decide (c = "__proto__")) as [->|Hne].
  - rewrite bool_decide_eq_false_2 in Hlc by naive_solver.
    unfold tally_set, tally_get. rewrite Hlc. simpl.
    split; simpl.
    + intros o. rewrite count_votes_insert by done.
      rewrite Hl. case_bool_decide as Ho; [|done].
      by rewrite bool_decide_eq_false_2 by naive_solver.
    + rewrite count_votes_insert, map_size_insert_None by done.
      rewrite bool_decide_eq_true_2 by done. lia.
  - rewrite bool_decide_eq_true_2 in Hlc by done.
    unfold tally_set, tally_get. rewrite Hlc. simpl.
    split; simpl.
    + intros o. rewrite count_votes_insert by done.
      destruct (decide (o = c)) as [->|Hoc].
      * rewrite lookup_insert_eq, !bool_decide_eq_true_2 by done.
        do 2 f_equal. lia.
      * rewrite lookup_insert_ne by done.
        rewrite (bool_decide_eq_false_2 (o = c)) by done. apply Hl.
    + rewrite (tally_sum_bump _ _ _ Hlc).
      rewrite count_votes_insert, map_size_insert_None by done.
      rewrite bool_decide_eq_false_2 by done. lia.
Qed.

Lemma step_tallied r st :
  (forall s, currentSession st = Some s -> tallied s) ->
  forall s', currentSession (step r st).1 = Some s' -> tallied s'.
Proof.
  intros IH s'. destruct r; simpl; try apply IH.
  - rewrite start_unfold.
    destruct (too_few opts); [apply IH|].
    destruct (bad_duration dur); [apply IH|].
    destruct opts; [apply IH|]. simpl.
    intros [= <-]. apply tallied_new.
  - destruct (on_vote_cases p st)
      as [-> | (s & dev & c & E & _ & Hc & Hv & ->)]; [apply IH|].
    simpl. intros [= <-]. apply tallied_vote; [by apply IH|done|done].
  - case_bool_decide; [|apply IH]. unfold endSession. simpl.
    destruct (currentSession st) as [s|] eqn:E; simpl; [|done].
    intros [= <-]. destruct (IH s eq_refl) as [Hl Hsum]. by split.
  - unfold endSession.
    destruct (currentSession st) as [s|] eqn:E; simpl; [|by rewrite E].
    intros [= <-]. destruct (IH s eq_refl) as [Hl Hsum]. by split.
Qed.

Lemma reachable_tallied_inv st s :
  reachable st -> currentSession st = Some s -> tallied s.
Proof.
  intros Hr. revert s. induction Hr as [|st r _ IH]; [done|].
  by apply step_tallied.
Qed.

Lemma count_votes_le o (v : gmap string string) : count_votes o v <= size v.
Proof. apply map_subseteq_size, map_filter_subseteq. Qed.

(** X1: in every reachable state, whatever the options are, the tally of
    the current session holds for each option other than ["__proto__"] the
    number of ledger entries that chose it and has no other entry; its
    counts add up to the ledger size less the votes for ["__proto__"]. *)
Theorem reachable_tally_exact st s :
  reachable st -> currentSession st = Some s -> tallied s.
Proof. apply reachable_tallied_inv. Qed.

Lemma reachable_tally_exact_witness : tallied voted_session.
Proof.
  apply (reachable_tally_exact voted voted_session).
  - apply (reachable_step polling), (reachable_step initial), reachable_initial.
  - vm_compute. reflexivity.
Defined.

(** X2: [GET /api/results] in a reachable state with a session reports
    that session; every entry of the reported tally belongs to an option,
    is a number, and is at most the number of votes cast. *)
Theorem results_counts_bounded st s :
  reachable st -> currentSession st = Some s ->
  results st = ResultsOf (id s) (active s) (tally s)
  /\ forall o v, tally s !! o = Some v ->
       o ∈ options s /\ exists n, v = Count n /\ n <= size (votes s).
Proof.
  intros Hr Hs. split; [unfold results; by rewrite Hs|].
  destruct (reachable_tallied_inv st s Hr Hs) as [Hl _].
  intros o v. rewrite Hl. case_bool_decide as Ho; [|done].
  intros [= <-]. split; [by destruct Ho|].
  eexists. split; [done|]. apply count_votes_le.
Qed.

Lemma results_counts_bounded_witness :
  results voted = ResultsOf (id voted_session) (active voted_session)
                    (tally voted_session)
  /\ forall o v, tally voted_session !! o = Some v ->
       o ∈ options voted_session /\
       exists n, v = Count n /\ n <= size (votes voted_session).
Proof.
  apply (results_counts_bounded voted voted_session).
  - apply (reachable_step polling), (reachable_step initial), reachable_initial.
  - vm_compute. reflexivity.
Defined.

(** X3: for any list of options, duplicates and all, [newTally] has one
    entry for each distinct option other than ["__proto__"], and every
    entry is the count 0. *)
Theorem newTally_keys opts :
  dom (newTally opts) = list_to_set opts ∖ {[ "__proto__" ]}
  /\ forall o v, newTally opts !! o = Some v -> v = Count 0.
Proof.
  split.
  - apply set_eq. intros o.
    rewrite elem_of_dom, newTally_lookup, elem_of_difference,
      elem_of_list_to_set, elem_of_singleton.
    case_bool_decide as Ho; split; naive_solver.
  - intros o v. rewrite newTally_lookup. case_bool_decide; congruence.
Qed.

(** ** The vote handler *)

(** X4: a vote for the current, active session from a device that is not
    in the ledger, with a non-empty string as device id and one of the
    options as choice, enters the ledger, raises the tally as
    [tally[choice] = (tally[choice] || 0) + 1] does, publishes one tally
    update whose [totalVotes] is the ledger size plus one, and is
    acknowledged once. *)
Theorem vote_admitted st s data dev c :
  currentSession st = Some s -> active s = true ->
  field data "sessionId" = JStr (id s) ->
  field data "deviceId" = JStr dev -> dev <> "" ->
  field data "choice" = JStr c -> c ∈ options s ->
  votes s !! dev = None ->
  let t := tally_set (tally s) c (or_zero_plus_one (tally_get (tally s) c)) in
  on_vote (Parsed data) st =
    ({| currentSession :=
          Some {| id := id s; options := options s; endAt := endAt s;
                  active := true; votes := <[dev := c]> (votes s);
                  tally := t; timer := timer s |};
        armed := armed st; nextTimer := nextTimer st |},
     [ ("voting/tally", TallyUpdated (id s) t (S (size (votes s)))) ],
     1).
Proof.
  intros Hs Ha Hsid Hdev Hne Hc Hin Hv. simpl.
  unfold on_vote, try_block. rewrite Hs, Ha, Hsid, Hdev, Hc. simpl.
  rewrite bool_decide_eq_true_2 by done. simpl.
  unfold device_of. simpl. rewrite bool_decide_eq_false_2 by done. simpl.
  rewrite bool_decide_eq_true_2 by done. rewrite Hv.
  by rewrite map_size_insert_None.
Qed.

Lemma vote_admitted_witness :
  let t := tally_set (tally voted_session) "B"
             (or_zero_plus_one (tally_get (tally voted_session) "B")) in
  on_vote (Parsed (ballot "sess_1700000000000" "dev2" "B")) voted =
    ({| currentSession :=
          Some {| id := id voted_session; options := options voted_session;
                  endAt := endAt voted_session; active := true;
                  votes := <["dev2" := "B"]> (votes voted_session);
                  tally := t; timer := timer voted_session |};
        armed := armed voted; nextTimer := nextTimer voted |},
     [ ("voting/tally",
        TallyUpdated (id voted_session) t (S (size (votes voted_session)))) ],
     1).
Proof.
  apply (vote_admitted voted voted_session
           (ballot "sess_1700000000000" "dev2" "B") "dev2" "B").
  - vm_compute. reflexivity.
  - reflexivity.
  - reflexivity.
  - reflexivity.
  - discriminate.
  - reflexivity.
  - vm_compute. apply elem_of_cons. right. apply elem_of_cons. by left.
  - vm_compute. reflexivity.
Defined.

Lemma field_not_object data k :
  (forall props, data <> JObj props) -> field data k = JUndefined.
Proof.
  intros H. unfold field.
  destruct data as [| |b|x|str|items|props]; simpl; try done.
  - by destruct b.
  - by destruct (negb _).
  - by destruct (negb _).
  - by destruct (H props).
Qed.

(** X5: a payload that parses to something that is not an object ([null],
    a number, a string, a boolean, an array) changes nothing and publishes
    nothing; the handler returns early and the [finally] block runs, so
    [cb] is called twice. *)
Theorem non_object_payload_dropped data st :
  (forall props, data <> JObj props) ->
  on_vote (Parsed data) st = (st, [], 2).
Proof.
  intros H. unfold on_vote, try_block.
  rewrite !(field_not_object data) by done.
  destruct (currentSession st) as [s|]; [|done].
  by destruct (active s).
Qed.

Lemma non_object_payload_dropped_witness :
  on_vote (Parsed (JArr [JStr "sess_1700000000000"; JStr "dev2"; JStr "A"]))
    voted = (voted, [], 2).
Proof.
  apply (non_object_payload_dropped
           (JArr [JStr "sess_1700000000000"; JStr "dev2"; JStr "A"]) voted).
  intros props. discriminate.
Defined.

(** X6: a vote whose [deviceId] is the empty string changes nothing and
    publishes nothing, whatever else it says. *)
Theorem empty_device_rejected data st :
  field data "deviceId" = JStr "" ->
  (on_vote (Parsed data) st).1 = (st, []).
Proof.
  intros H. unfold on_vote, try_block. rewrite H.
  destruct (currentSession st) as [s|]; [|done].
  destruct (negb (active s)); [done|].
  by destruct (negb (same_string _ _)).
Qed.

Lemma empty_device_rejected_witness :
  (on_vote (Parsed (ballot "sess_1700000000000" "" "A")) voted).1
    = (voted, []).
Proof.
  apply (empty_device_rejected (ballot "sess_1700000000000" "" "A") voted).
  reflexivity.
Defined.

(** X7: the handler calls [cb] once or twice for every message, never
    zero times, and exactly once for a message that does not parse and for
    one that makes it publish. *)
Theorem on_vote_ack_bounds p st :
  1 <= (on_vote p st).2 <= 2
  /\ (on_vote Malformed st).2 = 1
  /\ ((on_vote p st).1.2 <> [] -> (on_vote p st).2 = 1).
Proof.
  split; [|split; [done|]]; rewrite ?on_vote_acks.
  - destruct ((try_block p st).2); lia.
  - unfold on_vote, try_block. destruct p; [done|].
    destruct (currentSession st) as [s|]; [|done].
    destruct (negb (active s)); [done|].
    destruct (negb (same_string _ _)); [done|].
    destruct (device_of _); [|done].
    destruct (included _ _); [|done].
    by destruct (votes s !! _).
Qed.

Lemma on_vote_ack_bounds_witness :
  1 <= (on_vote (Parsed (ballot "sess_1700000000000" "dev2" "B")) voted).2 <= 2
  /\ (on_vote Malformed voted).2 = 1
  /\ ((on_vote (Parsed (ballot "sess_1700000000000" "dev2" "B")) voted).1.2
        <> [] ->
      (on_vote (Parsed (ballot "sess_1700000000000" "dev2" "B")) voted).2 = 1).
Proof.
  apply (on_vote_ack_bounds
           (Parsed (ballot "sess_1700000000000" "dev2" "B")) voted).
Defined.

(** ** The ledger *)

Lemma on_vote_session p st s' :
  currentSession (on_vote p st).1.1 = Some s' ->
  currentSession st = Some s'
  \/ exists s dev c,
       currentSession st = Some s /\ active s = true /\
       dev <> "" /\ c ∈ options s /\ votes s !! dev = None /\
       s' = {| id := id s; options := options s; endAt := endAt s;
               active := active s; votes := <[dev := c]> (votes s);
               tally := tally_set (tally s) c
                          (or_zero_plus_one (tally_get (tally s) c));
               timer := timer s |}.
Proof.
  destruct (on_vote_cases p st) as [-> | (s0 & dev0 & c0 & _ & _ & _ & _ & E)];
    [by left|].
  destruct p as [|data]; [by left|].
  pose proof (f_equal snd E) as Eout. simpl in Eout.
  destruct (on_vote_published data st _ _ Eout)
    as (s & dev & c & Hs & Ha & _ & _ & Hne & _ & Hin & Hv & Hnew).
  rewrite Hnew. intros [= <-]. right. by exists s, dev, c.
Qed.

Lemma step_ledger_valid r st :
  (forall s, currentSession st = Some s -> ledger_valid s) ->
  forall s', currentSession (step r st).1 = Some s' -> ledger_valid s'.
Proof.
  intros IH s'. destruct r; simpl; try apply IH.
  - rewrite start_unfold.
    destruct (too_few opts); [apply IH|].
    destruct (bad_duration dur); [apply IH|].
    destruct opts; [apply IH|]. simpl.
    intros [= <-] dev c. simpl. by rewrite lookup_empty.
  - intros [Hs | (s & dev & c & Hs & _ & Hne & Hin & Hv & ->)]%on_vote_session;
      [by apply IH|].
    intros dev' c'. simpl.
    destruct (decide (dev = dev')) as [<-|Hd].
    + rewrite lookup_insert_eq. by intros [= <-].
    + rewrite lookup_insert_ne by done. by apply IH.
  - case_bool_decide; [|apply IH]. unfold endSession. simpl.
    destruct (currentSession st) as [s|] eqn:E; simpl; [|done].
    intros [= <-]. exact (IH s eq_refl).
  - unfold endSession.
    destruct (currentSession st) as [s|] eqn:E; simpl; [|by rewrite E].
    intros [= <-]. exact (IH s eq_refl).
Qed.

(** X8: in every reachable state each ledger entry of the current session
    is filed under a non-empty device id and holds one of the session's
    options. *)
Theorem reachable_ledger_valid st s dev c :
  reachable st -> currentSession st = Some s ->
  votes s !! dev = Some c -> dev <> "" /\ c ∈ options s.
Proof.
  intros Hr. revert s dev c.
  induction Hr as [|st r _ IH]; [done|].
  intros s dev c Hs. apply (step_ledger_valid r st); [|done].
  intros s0 Hs0 dev0 c0. by apply IH.
Qed.

Lemma reachable_ledger_valid_witness :
  "dev1" <> "" /\ "A" ∈ options voted_session.
Proof.
  apply (reachable_ledger_valid voted voted_session "dev1" "A").
  - apply (reachable_step polling), (reachable_step initial), reachable_initial.
  - vm_compute. reflexivity.
  - vm_compute. reflexivity.
Defined.

Lemma step_keeps_entry r st s dev c :
  is_start r = false -> currentSession st = Some s ->
  votes s !! dev = Some c ->
  exists s', currentSession (step r st).1 = Some s' /\
             votes s' !! dev = Some c /\ size (votes s) <= size (votes s').
Proof.
  intros Hr Hs Hv. destruct r; simpl in *; try done; try by exists s.
  - destruct (on_vote_cases p st)
      as [-> | (s0 & dev0 & c0 & E & _ & _ & Hv0 & ->)]; [by exists s|].
    simpl. rewrite Hs in E. injection E as <-.
    eexists. split; [reflexivity|]. simpl.
    rewrite lookup_insert_ne by congruence.
    rewrite map_size_insert_None by done. split; [done|lia].
  - case_bool_decide; [|by exists s]. unfold endSession. simpl.
    rewrite Hs. simpl. by eexists.
  - unfold endSession. rewrite Hs. simpl. by eexists.
Qed.

(** X9: ledger entries are written once.  Whatever requests follow, short
    of a new start, an entry stays in the ledger of the current session
    with the choice it was given. *)
Theorem ledger_write_once rs st s dev c :
  Forall (fun r => is_start r = false) rs ->
  currentSession st = Some s -> votes s !! dev = Some c ->
  exists s', currentSession (run rs st).1 = Some s' /\
             votes s' !! dev = Some c /\ size (votes s) <= size (votes s').
Proof.
  intros Hrs. revert st s.
  induction Hrs as [|r rs Hr _ IH]; intros st s Hs Hv; [by exists s|].
  rewrite run_cons. simpl.
  destruct (step_keeps_entry r st s dev c Hr Hs Hv) as (s1 & Hs1 & Hv1 & Hle).
  destruct (IH _ _ Hs1 Hv1) as (s2 & Hs2 & Hv2 & Hle2).
  exists s2. repeat split; [done|done|lia].
Qed.

Lemma ledger_write_once_witness :
  exists s',
    currentSession
      (run [ Vote (Parsed (ballot "sess_1700000000000" "dev1" "B"));
             Vote (Parsed (ballot "sess_1700000000000" "dev2" "B"));
             TimerFires 0 ] voted).1 = Some s'
    /\ votes s' !! "dev1" = Some "A"
    /\ size (votes voted_session) <= size (votes s').
Proof.
  apply (ledger_write_once
           [ Vote (Parsed (ballot "sess_1700000000000" "dev1" "B"));
             Vote (Parsed (ballot "sess_1700000000000" "dev2" "B"));
             TimerFires 0 ] voted voted_session "dev1" "A").
  - repeat constructor.
  - vm_compute. reflexivity.
  - vm_compute. reflexivity.
Defined.

(** ** Timers *)

Lemma step_timer_linked r st :
  (forall s, currentSession st = Some s -> timer_linked st s) ->
  forall s', currentSession (step r st).1 = Some s' ->
             timer_linked (step r st).1 s'.
Proof.
  intros IH s'. destruct r; simpl; try apply IH.
  - rewrite start_unfold.
    destruct (too_few opts); [apply IH|].
    destruct (bad_duration dur); [apply IH|].
    destruct opts; [apply IH|]. simpl.
    intros [= <-]. unfold timer_linked. simpl.
    eexists. split; [done|]. set_solver.
  - destruct (on_vote_cases p st)
      as [-> | (s & dev & c & E & Ha & _ & _ & ->)]; [apply IH|].
    simpl. intros [= <-]. specialize (IH s E).
    unfold timer_linked in *. simpl. by rewrite Ha in IH.
  - case_bool_decide; [|apply IH]. unfold endSession. simpl.
    destruct (currentSession st) as [s|] eqn:E; simpl; [|done].
    by intros [= <-].
  - unfold endSession.
    destruct (currentSession st) as [s|] eqn:E; simpl; [|by rewrite E].
    by intros [= <-].
Qed.

(** X10: in every reachable state an active session holds a timeout that
    is armed, and an ended session holds none. *)
Theorem active_session_timer_armed st s :
  reachable st -> currentSession st = Some s -> timer_linked st s.
Proof.
  intros Hr. revert s. induction Hr as [|st r _ IH]; [done|].
  by apply step_timer_linked.
Qed.

Lemma active_session_timer_armed_witness : timer_linked voted voted_session.
Proof.
  apply (active_session_timer_armed voted voted_session).
  - apply (reachable_step polling), (reachable_step initial), reachable_initial.
  - vm_compute. reflexivity.
Defined.

(** X11: the timeout of a superseded session still ends a session, the new
    one.  After a successful start over a session whose timeout [h] is
    armed, the firing of [h] publishes "ended" with the id of the new
    session and the reason "time_up", leaves the new session inactive, and
    cancels the new session's own timeout as well. *)
Theorem stale_timer_ends_new_session st s h now_id now_end dur entries :
  currentSession st = Some s -> timer s = Some h -> h ∈ armed st ->
  too_few (ArrayOf entries) = false -> bad_duration dur = false ->
  let st1 := (start now_id now_end dur (ArrayOf entries) st).1.1 in
  let r := step (TimerFires h) st1 in
  r.2 = [ ("voting/session",
           Ended ("sess_" +:+ pretty now_id) "time_up" (newTally entries)) ]
  /\ (exists s2, currentSession r.1 = Some s2 /\
                 id s2 = "sess_" +:+ pretty now_id /\
                 options s2 = entries /\
                 active s2 = false /\ timer s2 = None)
  /\ (h ∉ armed r.1) /\ (nextTimer st ∉ armed r.1).
Proof.
  intros _ _ Hh Ht Hd. cbv zeta. rewrite start_unfold, Ht, Hd. simpl.
  rewrite bool_decide_eq_true_2 by set_solver.
  unfold endSession, clearTimeout. simpl.
  split; [done|]. split; [by eexists|]. set_solver.
Qed.

Lemma stale_timer_ends_new_session_witness :
  let st1 := (start 1700000000007 1700000000007 five (ArrayOf ["C"; "D"])
                voted).1.1 in
  let r := step (TimerFires 0) st1 in
  r.2 = [ ("voting/session",
           Ended ("sess_" +:+ pretty 1700000000007%Z) "time_up"
             (newTally ["C"; "D"])) ]
  /\ (exists s2, currentSession r.1 = Some s2 /\
                 id s2 = "sess_" +:+ pretty 1700000000007%Z /\
                 options s2 = ["C"; "D"] /\
                 active s2 = false /\ timer s2 = None)
  /\ (0 ∉ armed r.1) /\ (nextTimer voted ∉ armed r.1).
Proof.
  apply (stale_timer_ends_new_session voted voted_session 0
           1700000000007 1700000000007 five ["C"; "D"]).
  - vm_compute. reflexivity.
  - reflexivity.
  - vm_compute. set_solver.
  - reflexivity.
  - reflexivity.
Defined.

(** X12: [endSession] cancels the timeout of the session it ends: should
    the event loop still try to run it, nothing happens, and no second
    "ended" message comes from it. *)
Theorem ended_session_timer_dead reason st s h :
  currentSession st = Some s -> timer s = Some h ->
  (h ∉ armed (endSession reason st).1)
  /\ step (TimerFires h) (endSession reason st).1
     = ((endSession reason st).1, []).
Proof.
  intros Hs Ht. rewrite (endSession_some _ _ _ Hs), Ht. simpl.
  assert (h ∉ clearTimeout h (armed st)) as Hn
    by (unfold clearTimeout; set_solver).
  split; [done|]. by rewrite bool_decide_eq_false_2.
Qed.

Lemma ended_session_timer_dead_witness :
  (0 ∉ armed (endSession "shutdown" voted).1)
  /\ step (TimerFires 0) (endSession "shutdown" voted).1
     = ((endSession "shutdown" voted).1, []).
Proof.
  apply (ended_session_timer_dead "shutdown" voted voted_session 0).
  - vm_compute. reflexivity.
  - reflexivity.
Defined.

(** ** What is published *)

(** X13: a request makes the server publish at most one message, and that
    message is on the topic of its kind and describes the session that is
    current once the request is served: its id; for "started" its options
    and end time; for "ended" and a tally update its tally; for a tally
    update the ledger size as [totalVotes]. *)
Theorem published_describes_current_session r st :
  match (step r st).2 with
  | [] => True
  | [p] => exists s', currentSession (step r st).1 = Some s' /\ announces p s'
  | _ => False
  end.
Proof.
  destruct r; simpl; try done.
  - rewrite start_unfold.
    destruct (too_few opts); [done|]. destruct (bad_duration dur); [done|].
    destruct opts; [done|]. simpl. eexists. split; [done|]. by simpl.
  - destruct (on_vote_cases p st)
      as [-> | (s & dev & c & E & Ha & _ & _ & ->)]; [done|].
    simpl. eexists. split; [done|]. by simpl.
  - case_bool_decide; [|done]. unfold endSession. simpl.
    destruct (currentSession st) as [s|]; [|done].
    simpl. eexists. split; [done|]. by simpl.
  - unfold endSession. destruct (currentSession st) as [s|]; [|done].
    simpl. eexists. split; [done|]. by simpl.
Qed.

(** ** Sessions over time *)

Lemma step_closed_frozen r st s :
  is_start r = false -> currentSession st = Some s -> active s = false ->
  exists s', currentSession (step r st).1 = Some s' /\
    id s' = id s /\ options s' = options s /\ endAt s' = endAt s /\
    votes s' = votes s /\ tally s' = tally s /\ active s' = false.
Proof.
  intros Hr Hs Ha. destruct r; simpl in *; try done; try by exists s.
  - rewrite (on_vote_inactive p st s Hs Ha). by exists s.
  - case_bool_decide; [|by exists s]. unfold endSession. simpl.
    rewrite Hs. simpl. by eexists.
  - unfold endSession. rewrite Hs. simpl. by eexists.
Qed.

(** X14: an ended session is frozen.  Whatever requests follow, short of a
    new start, it stays the current session, stays inactive, and keeps its
    id, options, end time, ledger and tally. *)
Theorem closed_session_frozen rs st s :
  Forall (fun r => is_start r = false) rs ->
  currentSession st = Some s -> active s = false ->
  exists s', currentSession (run rs st).1 = Some s' /\
    id s' = id s /\ options s' = options s /\ endAt s' = endAt s /\
    votes s' = votes s /\ tally s' = tally s /\ active s' = false.
Proof.
  intros Hrs. revert st s.
  induction Hrs as [|r rs Hr _ IH]; intros st s Hs Ha; [by exists s|].
  rewrite run_cons. simpl.
  destruct (step_closed_frozen r st s Hr Hs Ha)
    as (s1 & Hs1 & <- & <- & <- & <- & <- & Ha1).
  by apply IH.
Qed.

Lemma closed_session_frozen_witness :
  let ended := (endSession "shutdown" voted).1 in
  let s := {| id := id voted_session; options := options voted_session;
              endAt := endAt voted_session; active := false;
              votes := votes voted_session; tally := tally voted_session;
              timer := None |} in
  exists s',
    currentSession
      (run [ Vote (Parsed (ballot "sess_1700000000000" "dev2" "B"));
             TimerFires 0; Signal; GetResults ] ended).1 = Some s' /\
    id s' = id s /\ options s' = options s /\ endAt s' = endAt s /\
    votes s' = votes s /\ tally s' = tally s /\ active s' = false.
Proof.
  apply (closed_session_frozen
           [ Vote (Parsed (ballot "sess_1700000000000" "dev2" "B"));
             TimerFires 0; Signal; GetResults ]
           (endSession "shutdown" voted).1).
  - repeat constructor.
  - vm_compute. reflexivity.
  - reflexivity.
Defined.

Lemma step_keeps_session r st :
  is_Some (currentSession st) -> is_Some (currentSession (step r st).1).
Proof.
  intros [s Hs]. destruct r; simpl; try by exists s.
  - rewrite start_unfold.
    destruct (too_few opts); [by exists s|].
    destruct (bad_duration dur); [by exists s|].
    destruct opts; [by exists s|]. by eexists.
  - destruct (on_vote_cases p st)
      as [-> | (s0 & dev & c & _ & _ & _ & _ & ->)]; [by exists s|].
    by eexists.
  - case_bool_decide; [|by exists s]. unfold endSession. simpl.
    rewrite Hs. by eexists.
  - unfold endSession. rewrite Hs. by eexists.
Qed.

(** X15: the slot [currentSession] is never emptied again.  Once a session
    exists, every later state has a current session, and
    [GET /api/status] never again answers with the bare [{active: false}]. *)
Theorem session_slot_never_cleared rs st :
  is_Some (currentSession st) ->
  is_Some (currentSession (run rs st).1)
  /\ status (run rs st).1 <> StatusInactive.
Proof.
  intros Hs.
  assert (is_Some (currentSession (run rs st).1)) as [s' Hs'].
  { revert st Hs. induction rs as [|r rs IH]; intros st Hs; [done|].
    rewrite run_cons. simpl. by apply IH, step_keeps_session. }
  split; [by exists s'|]. unfold status. by rewrite Hs'.
Qed.

Lemma session_slot_never_cleared_witness :
  is_Some (currentSession (run [TimerFires 0; Signal; Vote Malformed] voted).1)
  /\ status (run [TimerFires 0; Signal; Vote Malformed] voted).1
     <> StatusInactive.
Proof.
  apply (session_slot_never_cleared [TimerFires 0; Signal; Vote Malformed] voted).
  exists voted_session. vm_compute. reflexivity.
Defined.
